(** * A shallow embedding of the AMP Email Python SDK (amp_email)

    Modules of the package and where they are embedded here:
    - [models.py]     pydantic (v2) models: field schemas, construction by
                       validation (calling the class with keyword arguments) and [.dict()] serialization;
    - [exceptions.py] the exception hierarchy rooted at [AMPEmailError];
    - [client.py]     [AMPEmailClient]: construction, the five operations and
                       the shared dispatcher [_request].

    JSON documents and Python values that travel through [json=] and
    [response.json()] are modelled by [jvalue]; a Python dict is an association
    list (keys unique, first hit wins).  An operation is a small tree of HTTP
    calls: either it returns a result, or it sends one request and continues
    with the transport outcome. *)

From Stdlib Require Import String Ascii List ZArith Bool Lia.
Import ListNotations.
Open Scope string_scope.
Open Scope Z_scope.
Open Scope list_scope.
Set Warnings "-register-all".

(** ** JSON-like values *)

Inductive jvalue : Type :=
| JNull
| JBool (b : bool)
| JInt (z : Z)
| JFloat (mantissa : Z) (exponent : Z)   (* the finite float [mantissa * 2^exponent] *)
| JStr (s : string)
| JList (l : list jvalue)
| JObj (kvs : list (string * jvalue)).

(** [d.get(k)] on a Python dict. *)
Fixpoint lookup (k : string) (kvs : list (string * jvalue)) : option jvalue :=
  match kvs with
  | [] => None
  | (k', v) :: rest => if String.eqb k k' then Some v else lookup k rest
  end.

Definition has_key (k : string) (kvs : list (string * jvalue)) : bool :=
  match lookup k kvs with Some _ => true | None => false end.

(** Decimal rendering of an integer, as Python's [f"{n}"]. *)
Fixpoint digits_rev (fuel : nat) (n : Z) (acc : string) : string :=
  match fuel with
  | O => acc
  | S f =>
      let acc' := String (ascii_of_nat (48 + Z.to_nat (n mod 10))) acc in
      if n / 10 =? 0 then acc' else digits_rev f (n / 10) acc'
  end.

Definition string_of_Z (n : Z) : string :=
  if n <? 0 then ("-" ++ digits_rev (Z.to_nat (Z.log2 (- n) + 1)) (- n) EmptyString)%string
  else digits_rev (Z.to_nat (Z.log2 n + 1)) n EmptyString.

(** ** Exceptions *)

(** [exceptions.py] defines [AMPEmailError] and its subclasses
    [AuthenticationError], [RateLimitError] and [ValidationError].  The other
    constructors are the Python and pydantic exceptions the code can let
    escape: [ValueError] (raised by [generate]), pydantic's [ValidationError]
    (a [ValueError] subclass, carrying the list of errors), [TypeError] and
    [AttributeError].  Each carries the argument it was raised with. *)
Inductive loc_item : Type :=
| LKey (k : string)
| LIdx (i : nat).

Record verror : Type := VError { err_loc : list loc_item; err_type : string }.

Inductive exn : Type :=
| AMPEmailError (arg : jvalue)
| AuthenticationError (arg : string)
| RateLimitError (arg : string)
| ValidationError (arg : string)
| ValueError (arg : string)
| PydanticValidationError (errors : list verror)
| TypeError (arg : string)
| AttributeError (arg : string).

(** [isinstance(e, AMPEmailError)]. *)
Definition is_amp_error (e : exn) : bool :=
  match e with
  | AMPEmailError _ | AuthenticationError _ | RateLimitError _
  | ValidationError _ => true
  | _ => false
  end.

Definition result (A : Type) : Type := (exn + A)%type.

(** ** pydantic models ([models.py])

    A field type of pydantic v2 in its default (lax, Python) mode.  Inputs are
    the JSON-like values above; numeric strings, which lax mode would parse,
    are not interpreted by this model and are reported as parsing errors. *)
Inductive ftype : Type :=
| TStr                              (* str *)
| TInt                              (* int *)
| TFloat                            (* float *)
| TBool                             (* bool *)
| TAny                              (* Any *)
| TOptional (t : ftype)             (* Optional[t] *)
| TEnum (values : list string)      (* a (str, Enum) class with these values *)
| TList (t : ftype)                 (* List[t] *)
| TDict (t : ftype)                 (* Dict[str, t] *)
| TModel (fields : list field)      (* a nested BaseModel *)
with field : Type :=
| Field (fname : string) (falias : option string) (fty : ftype)
        (fdefault : option jvalue).  (* [None]: required, [Field(...)] *)

Definition field_name (f : field) : string :=
  match f with Field n _ _ _ => n end.

Definition field_default (f : field) : option jvalue :=
  match f with Field _ _ _ d => d end.

(** The key a field is read from when the model is validated: its alias when
    one is declared, else its attribute name. *)
Definition wire_key (f : field) : string :=
  match f with Field n a _ _ => match a with Some a' => a' | None => n end end.

(** pydantic reports every error of a validation, not only the first. *)
Definition both {A B : Type} (r1 : list verror + A) (r2 : list verror + B)
  : list verror + (A * B) :=
  match r1, r2 with
  | inr a, inr b => inr (a, b)
  | inl e1, inl e2 => inl (e1 ++ e2)
  | inl e1, inr _ => inl e1
  | inr _, inl e2 => inl e2
  end.

Definition lower_ascii (c : ascii) : ascii :=
  let n := nat_of_ascii c in
  if (65 <=? n)%nat && (n <=? 90)%nat then ascii_of_nat (n + 32) else c.

Fixpoint lower (s : string) : string :=
  match s with
  | EmptyString => EmptyString
  | String c s' => String (lower_ascii c) (lower s')
  end.

Definition bool_true_strings : list string := ["1"; "on"; "t"; "true"; "y"; "yes"].
Definition bool_false_strings : list string := ["0"; "off"; "f"; "false"; "n"; "no"].

Definition mem_string (s : string) (l : list string) : bool :=
  existsb (String.eqb s) l.

(** A float [m * 2^e] with an integral value, as that integer. *)
Definition float_as_int (m e : Z) : option Z :=
  if 0 <=? e then Some (m * 2 ^ e)
  else if m mod (2 ^ (- e)) =? 0 then Some (m / 2 ^ (- e)) else None.

(** The fields of a model, in declaration order, validated with [val]: each
    is read from its [wire_key]; an absent field takes its default, or is a
    [missing] error when it has none; keys that are no field's are ignored
    ([extra='ignore']).  The instance maps attribute names to values. *)
Fixpoint validate_fields_with
  (val : ftype -> list loc_item -> jvalue -> list verror + jvalue)
  (fs : list field) (loc : list loc_item) (kvs : list (string * jvalue))
  : list verror + list (string * jvalue) :=
  match fs with
  | [] => inr []
  | Field n a ty d :: fs' =>
      let key := match a with Some a' => a' | None => n end in
      let r := match lookup key kvs with
               | Some v => val ty (loc ++ [LKey key]) v
               | None =>
                   match d with
                   | Some dv => inr dv
                   | None => inl [VError (loc ++ [LKey key]) "missing"]
                   end
               end in
      match both r (validate_fields_with val fs' loc kvs) with
      | inr (v, rest) => inr ((n, v) :: rest)
      | inl es => inl es
      end
  end.

Fixpoint validate (t : ftype) (loc : list loc_item) (v : jvalue) {struct t}
  : list verror + jvalue :=
  match t with
  | TStr => match v with JStr _ => inr v | _ => inl [VError loc "string_type"] end
  | TInt =>
      match v with
      | JInt _ => inr v
      | JBool b => inr (JInt (if b then 1 else 0))
      | JFloat m e =>
          match float_as_int m e with
          | Some z => inr (JInt z)
          | None => inl [VError loc "int_from_float"]
          end
      | JStr _ => inl [VError loc "int_parsing"]
      | _ => inl [VError loc "int_type"]
      end
  | TFloat =>
      match v with
      | JFloat _ _ => inr v
      | JInt z => inr (JFloat z 0)
      | JBool b => inr (JFloat (if b then 1 else 0) 0)
      | JStr _ => inl [VError loc "float_parsing"]
      | _ => inl [VError loc "float_type"]
      end
  | TBool =>
      match v with
      | JBool _ => inr v
      | JInt 0 => inr (JBool false)
      | JInt 1 => inr (JBool true)
      | JFloat m e =>
          match float_as_int m e with
          | Some 0 => inr (JBool false)
          | Some 1 => inr (JBool true)
          | _ => inl [VError loc "bool_parsing"]
          end
      | JStr s =>
          if mem_string (lower s) bool_true_strings then inr (JBool true)
          else if mem_string (lower s) bool_false_strings then inr (JBool false)
          else inl [VError loc "bool_parsing"]
      | _ => inl [VError loc "bool_type"]
      end
  | TAny => inr v
  | TOptional t' => match v with JNull => inr JNull | _ => validate t' loc v end
  | TEnum vals =>
      match v with
      | JStr s => if mem_string s vals then inr v else inl [VError loc "enum"]
      | _ => inl [VError loc "enum"]
      end
  | TList t' =>
      match v with
      | JList l =>
          let fix go (i : nat) (l : list jvalue) : list verror + list jvalue :=
            match l with
            | [] => inr []
            | x :: l' =>
                match both (validate t' (loc ++ [LIdx i]) x) (go (S i) l') with
                | inr (x', l'') => inr (x' :: l'')
                | inl es => inl es
                end
            end in
          match go O l with inr l' => inr (JList l') | inl es => inl es end
      | _ => inl [VError loc "list_type"]
      end
  | TDict t' =>
      match v with
      | JObj kvs =>
          let fix go (kvs : list (string * jvalue))
              : list verror + list (string * jvalue) :=
            match kvs with
            | [] => inr []
            | (k, x) :: kvs' =>
                match both (validate t' (loc ++ [LKey k]) x) (go kvs') with
                | inr (x', rest) => inr ((k, x') :: rest)
                | inl es => inl es
                end
            end in
          match go kvs with inr kvs' => inr (JObj kvs') | inl es => inl es end
      | _ => inl [VError loc "dict_type"]
      end
  | TModel fs =>
      match v with
      | JObj kvs =>
          match validate_fields_with validate fs loc kvs with
          | inr inst => inr (JObj inst)
          | inl es => inl es
          end
      | _ => inl [VError loc "model_type"]
      end
  end.

Definition validate_fields := validate_fields_with validate.

(** Calling a model class with keyword arguments [kw]: construction raises pydantic's [ValidationError]. *)
Definition construct (fs : list field) (kw : list (string * jvalue))
  : result (list (string * jvalue)) :=
  match validate_fields fs [] kw with
  | inr inst => inr inst
  | inl es => inl (PydanticValidationError es)
  end.

(** [model.model_dump(by_alias=...)]: one entry per field, in declaration
    order, keyed by the attribute name unless [by_alias]. *)
Definition model_dump (by_alias : bool) (fs : list field)
  (inst : list (string * jvalue)) : list (string * jvalue) :=
  map (fun f => (if by_alias then wire_key f else field_name f,
                 match lookup (field_name f) inst with Some v => v | None => JNull end))
      fs.

(** [model.dict()], the call the client uses: [model_dump()] with pydantic's
    default [by_alias=False]. *)
Definition dict (fs : list field) (inst : list (string * jvalue))
  : list (string * jvalue) :=
  model_dump false fs inst.

(** *** The models of [models.py] *)

Definition CampaignType : list string :=
  ["abandoned_cart"; "promotional"; "product_launch"; "price_drop"; "back_in_stock"].
Definition CampaignGoal : list string :=
  ["acquisition"; "retention"; "engagement"; "conversion"].
Definition Urgency : list string := ["low"; "medium"; "high"].

Definition Product : list field :=
  [ Field "id" None (TOptional TStr) (Some JNull);
    Field "name" None (TOptional TStr) (Some JNull);
    Field "price" None (TOptional TFloat) (Some JNull);
    Field "currency" None (TOptional TStr) (Some (JStr "USD"));
    Field "image" None (TOptional TStr) (Some JNull);
    Field "url" None (TOptional TStr) (Some JNull);
    Field "description" None (TOptional TStr) (Some JNull);
    Field "brand" None (TOptional TStr) (Some JNull) ].

Definition CampaignContext : list field :=
  [ Field "type" None (TEnum CampaignType) None;
    Field "goal" None (TEnum CampaignGoal) None;
    Field "urgency" None (TOptional (TEnum Urgency)) (Some JNull);
    Field "discount" None (TOptional TFloat) (Some JNull) ].

Definition UserContext : list field :=
  [ Field "first_name" (Some "firstName") (TOptional TStr) (Some JNull);
    Field "last_name" (Some "lastName") (TOptional TStr) (Some JNull);
    Field "email" None (TOptional TStr) (Some JNull);
    Field "custom_fields" (Some "customFields") (TOptional (TDict TAny)) (Some JNull) ].

Definition BrandContext : list field :=
  [ Field "voice" None (TOptional TStr) (Some JNull);
    Field "colors" None (TOptional (TList TStr)) (Some JNull);
    Field "logo" None (TOptional TStr) (Some JNull);
    Field "company_name" (Some "companyName") (TOptional TStr) (Some JNull) ].

Definition GenerationOptions : list field :=
  [ Field "variations" None TInt (Some (JInt 3));
    Field "preserve_merge_tags" (Some "preserveMergeTags") TBool (Some (JBool true)) ].

Definition Template : list field :=
  [ Field "id" None TStr None;
    Field "variation_name" (Some "variationName") TStr None;
    Field "amp_url" (Some "ampUrl") TStr None;
    Field "fallback_url" (Some "fallbackUrl") TStr None;
    Field "content" None (TDict TAny) None;
    Field "merge_tags" (Some "mergeTags") (TList TStr) None ].

Definition Campaign : list field :=
  [ Field "campaign_id" (Some "campaignId") TStr None;
    Field "templates" None (TList (TModel Template)) None;
    Field "preview_urls" (Some "previewUrls") (TList (TDict TStr)) None;
    Field "cost" None (TDict TAny) None;
    Field "metadata" None (TDict TAny) None ].

(** ** The client ([client.py]) *)

(** [str.rstrip("/")]. *)
Fixpoint rstrip_slash (s : string) : string :=
  match s with
  | EmptyString => EmptyString
  | String c s' =>
      let r := rstrip_slash s' in
      match r with
      | EmptyString => if Ascii.eqb c "/"%char then EmptyString else String c EmptyString
      | _ => String c r
      end
  end.

Record client : Type := MkClient {
  api_key : string;
  base_url : string;
  timeout : Z;
  session_headers : list (string * string)
}.

Definition default_base_url : string := "https://api.amp-platform.com".
Definition default_timeout : Z := 30.

(** [AMPEmailClient(api_key, base_url, timeout)]. *)
Definition AMPEmailClient (key : string) (url : string) (tmo : Z) : client :=
  {| api_key := key;
     base_url := rstrip_slash url;
     timeout := tmo;
     session_headers := [("Authorization", "Bearer " ++ key)%string;
                         ("Content-Type", "application/json");
                         ("User-Agent", "amp-email-python-sdk/1.0.0")] |}.

(** What [session.request(method, url, timeout=..., json=...)] sends. *)
Record request : Type := MkRequest {
  req_method : string;
  req_url : string;
  req_timeout : Z;
  req_headers : list (string * string);
  req_json : option jvalue
}.

(** A response: its status code, its raw [content] and what [response.json()]
    gives on that content: a value, or (on the left) the message of the
    [requests.exceptions.JSONDecodeError] it raises. *)
Record response : Type := MkResponse {
  status_code : Z;
  content : string;
  json_result : string + jvalue
}.

(** The outcome of one call of the transport: a [RequestException] (connection
    refused, timeout, ...) with its message, or a response. *)
Inductive outcome : Type :=
| RequestException (msg : string)
| Response (r : response).

(** An operation: a result, or one request followed by a continuation. *)
Inductive io (A : Type) : Type :=
| Ret (a : A)
| Send (req : request) (k : outcome -> io A).
Arguments Ret {A} a.
Arguments Send {A} req k.

Fixpoint bind {A B : Type} (m : io A) (f : A -> io B) : io B :=
  match m with
  | Ret a => f a
  | Send req k => Send req (fun o => bind (k o) f)
  end.

(** The requests an operation issues under a given transport. *)
Fixpoint requests_issued {A : Type} (transport : request -> outcome) (m : io A)
  : list request :=
  match m with
  | Ret _ => []
  | Send req k => req :: requests_issued transport (k (transport req))
  end.

Definition py_type_name (v : jvalue) : string :=
  match v with
  | JNull => "NoneType" | JBool _ => "bool" | JInt _ => "int"
  | JFloat _ _ => "float" | JStr _ => "str" | JList _ => "list"
  | JObj _ => "dict"
  end.

(** Classification of a transport outcome, the body of the [try] in
    [_request].  [AuthenticationError] and [RateLimitError] are not
    [RequestException]s and leave the [try]; a [JSONDecodeError] of
    [response.json()] is one (requests >= 2.27) and is caught. *)
Definition handle_outcome (o : outcome) : result jvalue :=
  match o with
  | RequestException m => inl (AMPEmailError (JStr ("Request failed: " ++ m)%string))
  | Response r =>
      if status_code r =? 401 then inl (AuthenticationError "Invalid API key")
      else if status_code r =? 429 then inl (RateLimitError "Rate limit exceeded")
      else if 400 <=? status_code r then
        let error_data :=
          match content r with
          | EmptyString => inr (JObj [])
          | _ => json_result r
          end in
        match error_data with
        | inl m => inl (AMPEmailError (JStr ("Request failed: " ++ m)%string))
        | inr (JObj kvs) =>
            inl (AMPEmailError
                   (match lookup "message" kvs with
                    | Some v => v
                    | None => JStr ("API error: " ++ string_of_Z (status_code r))%string
                    end))
        | inr v =>
            inl (AttributeError ("'" ++ py_type_name v ++ "' object has no attribute 'get'")%string)
        end
      else
        match json_result r with
        | inl m => inl (AMPEmailError (JStr ("Request failed: " ++ m)%string))
        | inr v => inr v
        end
  end.

(** [AMPEmailClient._request(method, path, json=...)]. *)
Definition _request (c : client) (method path : string) (json : option jvalue)
  : io (result jvalue) :=
  Send {| req_method := method;
          req_url := (base_url c ++ path)%string;
          req_timeout := timeout c;
          req_headers := session_headers c;
          req_json := json |}
       (fun o => Ret (handle_outcome o)).

(** A model instance: attribute name to value. *)
Definition instance : Type := list (string * jvalue).

(** Python truthiness of an optional list argument. *)
Definition truthy_list {A : Type} (l : option (list A)) : bool :=
  match l with Some (_ :: _) => true | _ => false end.

Definition opt_entry (key : string) (present : bool) (v : jvalue)
  : list (string * jvalue) :=
  if present then [(key, v)] else [].

(** [Campaign] called with the keyword arguments of [response]; the instance is returned as a [JObj]. *)
Definition decode_campaign (resp : jvalue) : result jvalue :=
  match resp with
  | JObj kvs =>
      match construct Campaign kvs with
      | inr inst => inr (JObj inst)
      | inl e => inl e
      end
  | v => inl (TypeError ("amp_email.models.Campaign() argument after ** must be a mapping, not "
                         ++ py_type_name v)%string)
  end.

Definition generate_payload (product_urls : option (list string))
  (products : option (list instance)) (campaign_context user_context
  brand_context options : option instance) : list (string * jvalue) :=
  [("campaign_context",
     match campaign_context with
     | Some cc => JObj (dict CampaignContext cc)
     | None => JObj []
     end)]
  ++ opt_entry "product_urls" (truthy_list product_urls)
       (JList (map JStr (match product_urls with Some l => l | None => [] end)))
  ++ opt_entry "products" (truthy_list products)
       (JList (map (fun p => JObj (dict Product p))
                   (match products with Some l => l | None => [] end)))
  ++ (match user_context with Some u => [("user_context", JObj (dict UserContext u))] | None => [] end)
  ++ (match brand_context with Some b => [("brand_context", JObj (dict BrandContext b))] | None => [] end)
  ++ (match options with Some o => [("options", JObj (dict GenerationOptions o))] | None => [] end).

(** [AMPEmailClient.generate].  A model instance is always truthy. *)
Definition generate (c : client) (product_urls : option (list string))
  (products : option (list instance)) (campaign_context user_context
  brand_context options : option instance) : io (result jvalue) :=
  if negb (truthy_list product_urls) && negb (truthy_list products) then
    Ret (inl (ValueError "Either product_urls or products must be provided"))
  else
    bind (_request c "POST" "/api/v1/generate"
            (Some (JObj (generate_payload product_urls products campaign_context
                           user_context brand_context options))))
         (fun r => Ret (match r with
                        | inl e => inl e
                        | inr resp => decode_campaign resp
                        end)).

(** [AMPEmailClient.get_template]. *)
Definition get_template (c : client) (template_id : string) : io (result jvalue) :=
  _request c "GET" ("/api/v1/templates/" ++ template_id)%string None.

(** [AMPEmailClient.personalize]. *)
Definition personalize (c : client) (template_id : string)
  (recipient_data : list (string * jvalue)) : io (result jvalue) :=
  _request c "POST" "/api/v1/personalize"
    (Some (JObj [("template_id", JStr template_id);
                 ("recipient_data", JObj recipient_data)])).

(** The body assembled by [create_batch_campaign]. *)
Definition batch_payload (campaign_name : string) (product_urls : list string)
  (campaign_context : instance) (max_concurrent chunk_size : Z)
  (webhook_url : option string) : list (string * jvalue) :=
  [("campaign_name", JStr campaign_name);
   ("product_urls", JList (map JStr product_urls));
   ("campaign_context", JObj (dict CampaignContext campaign_context));
   ("max_concurrent", JInt max_concurrent);
   ("chunk_size", JInt chunk_size)]
  ++ (match webhook_url with
      | Some w => if String.eqb w EmptyString then [] else [("webhook_url", JStr w)]
      | None => []
      end).

(** [AMPEmailClient.create_batch_campaign]; an omitted [max_concurrent] or
    [chunk_size] ([None] here) takes its default, 10 or 100. *)
Definition create_batch_campaign (c : client) (campaign_name : string)
  (product_urls : list string) (campaign_context : instance)
  (max_concurrent chunk_size : option Z) (webhook_url : option string)
  : io (result jvalue) :=
  _request c "POST" "/api/v1/batch/campaign"
    (Some (JObj (batch_payload campaign_name product_urls campaign_context
                  (match max_concurrent with Some m => m | None => 10 end)
                  (match chunk_size with Some s => s | None => 100 end)
                  webhook_url))).

(** [AMPEmailClient.get_campaign_analytics]. *)
Definition get_campaign_analytics (c : client) (campaign_id : string)
  : io (result jvalue) :=
  _request c "GET" ("/api/v1/analytics/campaign/" ++ campaign_id)%string None.

(** A call of one of the five public operations, with its arguments. *)
Inductive operation : Type :=
| OpGenerate (product_urls : option (list string)) (products : option (list instance))
    (campaign_context user_context brand_context options : option instance)
| OpGetTemplate (template_id : string)
| OpPersonalize (template_id : string) (recipient_data : list (string * jvalue))
| OpCreateBatchCampaign (campaign_name : string) (product_urls : list string)
    (campaign_context : instance) (max_concurrent chunk_size : option Z)
    (webhook_url : option string)
| OpGetCampaignAnalytics (campaign_id : string).

Definition call (c : client) (op : operation) : io (result jvalue) :=
  match op with
  | OpGenerate pu pr cc uc bc o => generate c pu pr cc uc bc o
  | OpGetTemplate t => get_template c t
  | OpPersonalize t d => personalize c t d
  | OpCreateBatchCampaign n u cc m s w => create_batch_campaign c n u cc m s w
  | OpGetCampaignAnalytics i => get_campaign_analytics c i
  end.

(** Small checks of the embedding. *)
Example string_of_Z_500 : string_of_Z 500 = "500".
Proof. reflexivity. Qed.

Example rstrip_slash_example : rstrip_slash "https://x.io//" = "https://x.io".
Proof. reflexivity. Qed.

Example construct_product_default :
  construct Product [] =
  inr [("id", JNull); ("name", JNull); ("price", JNull); ("currency", JStr "USD");
       ("image", JNull); ("url", JNull); ("description", JNull); ("brand", JNull)].
Proof. reflexivity. Qed.

(** ** Generic facts about model validation *)

Definition field_result
  (val : ftype -> list loc_item -> jvalue -> list verror + jvalue)
  (loc : list loc_item) (kvs : list (string * jvalue)) (f : field)
  : list verror + jvalue :=
  match lookup (wire_key f) kvs with
  | Some v => match f with Field _ _ ty _ => val ty (loc ++ [LKey (wire_key f)]) v end
  | None =>
      match field_default f with
      | Some dv => inr dv
      | None => inl [VError (loc ++ [LKey (wire_key f)]) "missing"]
      end
  end.

Lemma validate_fields_with_cons val f fs loc kvs :
  validate_fields_with val (f :: fs) loc kvs =
  match both (field_result val loc kvs f) (validate_fields_with val fs loc kvs) with
  | inr (v, rest) => inr ((field_name f, v) :: rest)
  | inl es => inl es
  end.
Proof. destruct f as [n [a|] ty d]; reflexivity. Qed.

Lemma both_inr_inv {A B : Type} (r1 : list verror + A) (r2 : list verror + B) a b :
  both r1 r2 = inr (a, b) -> r1 = inr a /\ r2 = inr b.
Proof. destruct r1, r2; simpl; intro H; inversion H; auto. Qed.

Lemma both_inl_left {A B : Type} (es : list verror) (r2 : list verror + B) :
  exists es', both (inl es : list verror + A) r2 = inl es' /\ incl es es'.
Proof.
  destruct r2; simpl; eexists; split; try reflexivity.
  - apply incl_appl, incl_refl.
  - apply incl_refl.
Qed.

Lemma both_inl_right {A B : Type} (r1 : list verror + A) (es : list verror) :
  exists es', both r1 (inl es : list verror + B) = inl es' /\ incl es es'.
Proof.
  destruct r1; simpl; eexists; split; try reflexivity.
  - apply incl_appr, incl_refl.
  - apply incl_refl.
Qed.

Lemma lookup_app_none k kvs extra :
  lookup k extra = None -> lookup k (kvs ++ extra) = lookup k kvs.
Proof.
  intro Hx; induction kvs as [|[k' v] kvs IH]; simpl; [exact Hx|].
  destruct (String.eqb k k'); [reflexivity|exact IH].
Qed.

Section FieldValidation.
Variable val : ftype -> list loc_item -> jvalue -> list verror + jvalue.

(** The instance has one entry per field, in declaration order. *)
Lemma validate_fields_keys fs loc kvs inst :
  validate_fields_with val fs loc kvs = inr inst ->
  map fst inst = map field_name fs.
Proof.
  revert inst; induction fs as [|f fs IH]; intros inst H.
  - simpl in H; inversion H; reflexivity.
  - rewrite validate_fields_with_cons in H.
    destruct (both _ _) as [es|[v rest]] eqn:E; [discriminate|].
    inversion H; subst; simpl.
    apply both_inr_inv in E as [_ E2]. f_equal; auto.
Qed.

(** Every field's value is the result of that field. *)
Lemma validate_fields_lookup fs loc kvs inst f :
  validate_fields_with val fs loc kvs = inr inst ->
  NoDup (map field_name fs) -> In f fs ->
  exists v, field_result val loc kvs f = inr v /\ lookup (field_name f) inst = Some v.
Proof.
  revert inst; induction fs as [|g fs IH]; intros inst H Hnd Hin; [destruct Hin|].
  rewrite validate_fields_with_cons in H.
  destruct (both _ _) as [es|[v rest]] eqn:E; [discriminate|].
  inversion H; subst; clear H.
  apply both_inr_inv in E as [E1 E2].
  simpl in Hnd; inversion Hnd as [|? ? Hnotin Hnd']; subst.
  destruct Hin as [<-|Hin].
  - exists v; split; [exact E1|]. simpl; rewrite String.eqb_refl; reflexivity.
  - destruct (IH rest E2 Hnd' Hin) as [w [Hw Hl]].
    exists w; split; [exact Hw|]. simpl.
    destruct (String.eqb (field_name f) (field_name g)) eqn:Eq.
    + apply String.eqb_eq in Eq. exfalso; apply Hnotin.
      rewrite <- Eq; apply in_map; exact Hin.
    + exact Hl.
Qed.

(** A failing field makes the whole validation fail, with its errors. *)
Lemma validate_fields_error fs loc kvs f es :
  In f fs -> field_result val loc kvs f = inl es ->
  exists es', validate_fields_with val fs loc kvs = inl es' /\ incl es es'.
Proof.
  induction fs as [|g fs IH]; intros Hin Hf; [destruct Hin|].
  rewrite validate_fields_with_cons.
  destruct Hin as [<-|Hin].
  - rewrite Hf. destruct (both_inl_left (A:=jvalue) es (validate_fields_with val fs loc kvs))
      as [es' [-> Hi]]. eauto.
  - destruct (IH Hin Hf) as [es1 [Hr Hi]]. rewrite Hr.
    destruct (both_inl_right (B:=list (string * jvalue)) (field_result val loc kvs g) es1)
      as [es' [-> Hi']].
    exists es'; split; [reflexivity|]. eapply incl_tran; eauto.
Qed.

(** Keys that are no field's wire key do not change the validation. *)
Lemma validate_fields_extra fs loc kvs extra :
  (forall f, In f fs -> lookup (wire_key f) extra = None) ->
  validate_fields_with val fs loc (kvs ++ extra) = validate_fields_with val fs loc kvs.
Proof.
  induction fs as [|g fs IH]; intros Hx; [reflexivity|].
  rewrite !validate_fields_with_cons.
  rewrite IH by (intros f Hf; apply Hx; right; exact Hf).
  unfold field_result; rewrite lookup_app_none by (apply Hx; left; reflexivity).
  reflexivity.
Qed.
End FieldValidation.

Lemma validate_fields_unfold fs loc kvs :
  validate_fields fs loc kvs = validate_fields_with validate fs loc kvs.
Proof. reflexivity. Qed.

Definition field_type (f : field) : ftype :=
  match f with Field _ _ ty _ => ty end.

Section ExplicitDefault.
Variable val : ftype -> list loc_item -> jvalue -> list verror + jvalue.

Lemma field_result_other_key loc kvs g k d :
  wire_key g <> k ->
  field_result val loc ((k, d) :: kvs) g = field_result val loc kvs g.
Proof.
  intro Hne; unfold field_result; simpl.
  destruct (String.eqb (wire_key g) k) eqn:E; [apply String.eqb_eq in E; contradiction|].
  reflexivity.
Qed.

Lemma field_result_explicit_default loc kvs f d :
  field_default f = Some d -> lookup (wire_key f) kvs = None ->
  (forall loc', val (field_type f) loc' d = inr d) ->
  field_result val loc ((wire_key f, d) :: kvs) f = field_result val loc kvs f.
Proof.
  intros Hd Hl Hv; unfold field_result; simpl.
  rewrite String.eqb_refl, Hl, Hd.
  destruct f as [n a ty dd]; apply Hv.
Qed.

(** Passing a field explicitly with its default value, or not at all, gives
    the same validation. *)
Lemma validate_fields_explicit_default fs loc kvs f d :
  In f fs -> NoDup (map wire_key fs) -> field_default f = Some d ->
  lookup (wire_key f) kvs = None ->
  (forall loc', val (field_type f) loc' d = inr d) ->
  validate_fields_with val fs loc ((wire_key f, d) :: kvs) =
  validate_fields_with val fs loc kvs.
Proof.
  intros Hin Hnd Hd Hl Hv.
  assert (Hall : forall g, In g fs ->
            field_result val loc ((wire_key f, d) :: kvs) g = field_result val loc kvs g).
  { intros g Hg.
    destruct (String.eqb (wire_key g) (wire_key f)) eqn:E.
    - apply String.eqb_eq in E.
      assert (g = f) as ->.
      { clear -Hnd Hg Hin E.
        induction fs as [|h fs IH]; [destruct Hg|].
        simpl in Hnd; inversion Hnd as [|? ? Hno Hnd']; subst.
        destruct Hg as [<-|Hg], Hin as [<-|Hin]; auto.
        - exfalso; apply Hno; rewrite E; apply in_map; exact Hin.
        - exfalso; apply Hno; rewrite <- E; apply in_map; exact Hg. }
      apply field_result_explicit_default; assumption.
    - apply field_result_other_key. intro E'; rewrite E', String.eqb_refl in E; discriminate. }
  clear Hin Hnd.
  induction fs as [|g fs IH]; [reflexivity|].
  rewrite !validate_fields_with_cons, Hall by (left; reflexivity).
  rewrite IH by (intros h Hh; apply Hall; right; exact Hh).
  reflexivity.
Qed.
End ExplicitDefault.

Lemma dict_lookup fs inst f :
  NoDup (map field_name fs) -> In f fs ->
  lookup (field_name f) (dict fs inst) =
  Some (match lookup (field_name f) inst with Some v => v | None => JNull end).
Proof.
  unfold dict, model_dump; induction fs as [|g fs IH]; intros Hnd Hin; [destruct Hin|].
  simpl in Hnd; inversion Hnd as [|? ? Hno Hnd']; subst.
  simpl. destruct Hin as [<-|Hin].
  - rewrite String.eqb_refl; reflexivity.
  - destruct (String.eqb (field_name f) (field_name g)) eqn:E.
    + apply String.eqb_eq in E. exfalso; apply Hno; rewrite <- E; apply in_map; exact Hin.
    + apply IH; assumption.
Qed.

(** A schema whose attribute names and wire keys are distinct and whose
    defaults validate to themselves. *)
Definition well_formed_schema (fs : list field) : Prop :=
  NoDup (map field_name fs) /\ NoDup (map wire_key fs) /\
  (forall f d, In f fs -> field_default f = Some d ->
     forall loc, validate (field_type f) loc d = inr d).

Ltac solve_nodup :=
  simpl; repeat constructor; simpl; intuition discriminate.

Ltac solve_well_formed :=
  split; [solve_nodup|split; [solve_nodup|]];
  intros f d Hin Hd loc; simpl in Hin;
  repeat (destruct Hin as [<-|Hin]; [simpl in Hd; inversion Hd; subst; reflexivity|]);
  destruct Hin.

Lemma Product_wf : well_formed_schema Product.
Proof. solve_well_formed. Qed.
Lemma CampaignContext_wf : well_formed_schema CampaignContext.
Proof. solve_well_formed. Qed.
Lemma UserContext_wf : well_formed_schema UserContext.
Proof. solve_well_formed. Qed.
Lemma BrandContext_wf : well_formed_schema BrandContext.
Proof. solve_well_formed. Qed.
Lemma GenerationOptions_wf : well_formed_schema GenerationOptions.
Proof. solve_well_formed. Qed.
Lemma Template_wf : well_formed_schema Template.
Proof. solve_well_formed. Qed.
Lemma Campaign_wf : well_formed_schema Campaign.
Proof. solve_well_formed. Qed.

(** The request-side models. *)
Definition request_models : list (list field) :=
  [Product; CampaignContext; UserContext; BrandContext; GenerationOptions].

Lemma request_models_wf s : In s request_models -> well_formed_schema s.
Proof.
  simpl; intros [<-|[<-|[<-|[<-|[<-|[]]]]]].
  - exact Product_wf.
  - exact CampaignContext_wf.
  - exact UserContext_wf.
  - exact BrandContext_wf.
  - exact GenerationOptions_wf.
Qed.

(** ** Claims *)

Definition no_products_message : string :=
  "Either product_urls or products must be provided".

(** C1 (code_bug).  [generate] with [product_urls] and [products] both unset
    or empty raises before any request is built, but what it raises is the
    builtin [ValueError], which is not an [AMPEmailError]: the package's own
    [ValidationError] ("Request validation failed") is never raised. *)
Theorem generate_without_products_raises_ValueError c pu pr cc uc bc o :
  truthy_list pu = false -> truthy_list pr = false ->
  generate c pu pr cc uc bc o = Ret (inl (ValueError no_products_message)) /\
  (forall transport, requests_issued transport (generate c pu pr cc uc bc o) = []) /\
  is_amp_error (ValueError no_products_message) = false.
Proof.
  intros Hu Hr. unfold generate; rewrite Hu, Hr; simpl.
  repeat split.
Qed.

Lemma generate_without_products_raises_ValueError_witness :
  truthy_list (@None (list string)) = false /\ truthy_list (Some ([] : list instance)) = false /\
  generate (AMPEmailClient "key" default_base_url default_timeout) None (Some [])
    None None None None = Ret (inl (ValueError no_products_message)).
Proof.
  split; [reflexivity|split; [reflexivity|]].
  apply (generate_without_products_raises_ValueError
           (AMPEmailClient "key" default_base_url default_timeout) None (Some [])
           None None None None); reflexivity.
Defined.

(** C2 (code_bug).  Serializing a [UserContext] with [.dict()] and building a
    [UserContext] back from that mapping loses the aliased fields: [.dict()]
    writes [first_name] while construction reads [firstName] and ignores the
    unknown key [first_name]. *)
Theorem user_context_roundtrip_loses_first_name :
  exists u u',
    construct UserContext [("firstName", JStr "Ann")] = inr u /\
    dict UserContext u =
      [("first_name", JStr "Ann"); ("last_name", JNull); ("email", JNull);
       ("custom_fields", JNull)] /\
    construct UserContext (dict UserContext u) = inr u' /\
    lookup "first_name" u = Some (JStr "Ann") /\
    lookup "first_name" u' = Some JNull /\ u <> u'.
Proof.
  do 2 eexists; split; [reflexivity|].
  split; [reflexivity|]. split; [reflexivity|].
  split; [reflexivity|]. split; [reflexivity|]. discriminate.
Qed.

Definition field_alias (f : field) : option string :=
  match f with Field _ a _ _ => a end.

(** The value an instance holds for a field. *)
Definition value_of (inst : instance) (f : field) : jvalue :=
  match lookup (field_name f) inst with Some v => v | None => JNull end.

(** C3 (counterexample).  [Product().dict()] has an [id] entry although [id]
    was never set, and [Product(id=None)] serializes exactly as [Product()]. *)
Lemma product_dict_keeps_unset_field :
  exists p,
    construct Product [] = inr p /\
    lookup "id" (dict Product p) = Some JNull /\
    construct Product [("id", JNull)] = inr p.
Proof. eexists; split; [reflexivity|split; reflexivity]. Qed.

(** C3 (amended).  For every request-side model, [.dict()] of a constructed
    instance has one entry per declared field, in declaration order, set or
    not, holding the field's value; the entry of a field without an alias is
    keyed by its name.  A field the caller never set holds its default, and
    passing that field explicitly with its default value builds the same
    instance, hence the same mapping. *)
Theorem dict_emits_every_field s kw inst :
  In s request_models -> construct s kw = inr inst ->
  length (dict s inst) = length s /\
  (forall i f, nth_error s i = Some f ->
     exists k, nth_error (dict s inst) i = Some (k, value_of inst f) /\
               (field_alias f = None -> k = wire_key f)) /\
  (forall f d, In f s -> field_default f = Some d -> lookup (wire_key f) kw = None ->
     value_of inst f = d /\
     construct s ((wire_key f, d) :: kw) = construct s kw).
Proof.
  intros Hs Hc.
  destruct (request_models_wf s Hs) as [Hnames [Hkeys Hdef]].
  unfold construct in Hc.
  destruct (validate_fields s [] kw) as [es|inst'] eqn:Hv; [discriminate|].
  inversion Hc; subst inst'; clear Hc.
  split; [|split].
  - unfold dict, model_dump; apply length_map.
  - intros i f Hi. unfold dict, model_dump; rewrite nth_error_map, Hi; simpl.
    exists (field_name f); split; [reflexivity|].
    destruct f as [n [a|] ty d]; simpl; [discriminate|reflexivity].
  - intros f d Hin Hd Hl; split.
    + destruct (validate_fields_lookup validate s [] kw inst f Hv Hnames Hin) as [v [Hr Hli]].
      unfold value_of; rewrite Hli. unfold field_result in Hr; rewrite Hl, Hd in Hr.
      inversion Hr; reflexivity.
    + unfold construct, validate_fields.
      rewrite validate_fields_explicit_default; try assumption; [reflexivity|].
      intro loc; apply (Hdef f d Hin Hd).
Qed.

Lemma dict_emits_every_field_witness :
  In Product request_models /\
  construct Product [] = inr (match construct Product [] with inr p => p | inl _ => [] end) /\
  length (dict Product (match construct Product [] with inr p => p | inl _ => [] end)) =
    length Product.
Proof.
  split; [left; reflexivity|split; [reflexivity|]].
  apply (dict_emits_every_field Product [] _ (or_introl eq_refl) eq_refl).
Defined.

(** Every operation that sends its request continues with the classification
    [handle_outcome] of the outcome, possibly followed by a decoding step that
    passes errors through unchanged. *)
Lemma call_continuation c op req k :
  call c op = Send req k ->
  exists post : result jvalue -> result jvalue,
    (forall o, k o = Ret (post (handle_outcome o))) /\ (forall e, post (inl e) = inl e).
Proof.
  destruct op as [pu pr cc uc bc o|t|t d|n u cc m s w|i]; simpl;
    unfold generate, get_template, personalize, create_batch_campaign,
      get_campaign_analytics, _request.
  - destruct (negb (truthy_list pu) && negb (truthy_list pr)); simpl; [discriminate|].
    intro H; inversion H; subst; clear H.
    exists (fun r => match r with inl e => inl e | inr resp => decode_campaign resp end).
    split; reflexivity.
  - intro H; inversion H; subst. exists (fun r => r); split; reflexivity.
  - intro H; inversion H; subst. exists (fun r => r); split; reflexivity.
  - intro H; inversion H; subst. exists (fun r => r); split; reflexivity.
  - intro H; inversion H; subst. exists (fun r => r); split; reflexivity.
Qed.

Lemma call_error_passes c op req k o e :
  call c op = Send req k -> handle_outcome o = inl e -> k o = Ret (inl e).
Proof.
  intros Hc Ho. destruct (call_continuation c op req k Hc) as [post [Hk Hp]].
  rewrite Hk, Ho, Hp; reflexivity.
Qed.

Definition sample_client : client := AMPEmailClient "key" default_base_url default_timeout.

(** C4.  For every operation that sends its request, a 401 response raises
    [AuthenticationError] and a 429 response raises [RateLimitError],
    whatever the body. *)
Theorem status_401_429_raise_typed_errors c op req k cont js :
  call c op = Send req k ->
  k (Response (MkResponse 401 cont js)) = Ret (inl (AuthenticationError "Invalid API key")) /\
  k (Response (MkResponse 429 cont js)) = Ret (inl (RateLimitError "Rate limit exceeded")).
Proof.
  intro Hc; split; apply (call_error_passes c op req k); auto.
Qed.

Lemma status_401_429_raise_typed_errors_witness :
  exists req k,
    call sample_client (OpGetTemplate "t1") = Send req k /\
    k (Response (MkResponse 401 EmptyString (inr (JObj [])))) =
      Ret (inl (AuthenticationError "Invalid API key")).
Proof.
  do 2 eexists; split; [reflexivity|].
  eapply (status_401_429_raise_typed_errors sample_client (OpGetTemplate "t1")).
  reflexivity.
Defined.





(** The response-side models. *)
Definition response_models : list (list field) := [Template; Campaign].

Lemma response_models_required s f :
  In s response_models -> In f s -> field_default f = None.
Proof.
  simpl; intros [<-|[<-|[]]] Hf; simpl in Hf;
    repeat (destruct Hf as [<-|Hf]; [reflexivity|]); destruct Hf.
Qed.

Lemma construct_missing_field s kvs f :
  In f s -> field_default f = None -> lookup (wire_key f) kvs = None ->
  exists es, construct s kvs = inl (PydanticValidationError es) /\
             In (VError [LKey (wire_key f)] "missing") es.
Proof.
  intros Hin Hd Hl.
  assert (Hr : field_result validate [] kvs f = inl [VError [LKey (wire_key f)] "missing"]).
  { unfold field_result; rewrite Hl, Hd; reflexivity. }
  destruct (validate_fields_error validate s [] kvs f _ Hin Hr) as [es [Hv Hi]].
  exists es; split.
  - unfold construct, validate_fields; rewrite Hv; reflexivity.
  - apply Hi; left; reflexivity.
Qed.

Lemma handle_outcome_not_decode_error o e es :
  handle_outcome o = inl e -> e <> PydanticValidationError es.
Proof.
  intros H ->. destruct o as [m|r]; simpl in H; [discriminate|].
  destruct (status_code r =? 401); [discriminate|].
  destruct (status_code r =? 429); [discriminate|].
  destruct (400 <=? status_code r).
  - destruct (match content r with EmptyString => _ | _ => _ end) as [m|[]];
      discriminate.
  - destruct (json_result r); discriminate.
Qed.

(** C6.  Decoding a [Template] or a [Campaign] payload fails with pydantic's
    [ValidationError], with a [missing] error located at the wire key, as soon
    as one required field is absent; keys that are no field's are ignored; in
    [generate], a 200 response whose body lacks [campaignId] fails that way;
    and no transport or HTTP failure of [_request] is such a decode error. *)
Theorem response_decode_strict :
  (forall s kvs f, In s response_models -> In f s -> lookup (wire_key f) kvs = None ->
     exists es, construct s kvs = inl (PydanticValidationError es) /\
                In (VError [LKey (wire_key f)] "missing") es) /\
  (forall s kvs extra, In s response_models ->
     (forall f, In f s -> lookup (wire_key f) extra = None) ->
     construct s (kvs ++ extra) = construct s kvs) /\
  (forall c pu pr cc uc bc o req k cont kvs,
     generate c pu pr cc uc bc o = Send req k -> lookup "campaignId" kvs = None ->
     exists es, k (Response (MkResponse 200 cont (inr (JObj kvs)))) =
                  Ret (inl (PydanticValidationError es)) /\
                In (VError [LKey "campaignId"] "missing") es /\
                is_amp_error (PydanticValidationError es) = false) /\
  (forall o e es, handle_outcome o = inl e -> e <> PydanticValidationError es).
Proof.
  split; [|split; [|split]].
  - intros s kvs f Hs Hf Hl.
    apply construct_missing_field; auto. eapply response_models_required; eauto.
  - intros s kvs extra Hs Hx. unfold construct, validate_fields.
    rewrite validate_fields_extra by exact Hx. reflexivity.
  - intros c pu pr cc uc bc o req k cont kvs Hg Hl.
    unfold generate, _request in Hg.
    destruct (negb (truthy_list pu) && negb (truthy_list pr)); [discriminate|].
    simpl in Hg; inversion Hg; subst; clear Hg.
    destruct (construct_missing_field Campaign kvs
                (Field "campaign_id" (Some "campaignId") TStr None)
                (or_introl eq_refl) eq_refl Hl) as [es [Hc Hi]].
    exists es; split; [|split; [exact Hi|reflexivity]].
    simpl. unfold decode_campaign. rewrite Hc. reflexivity.
  - exact handle_outcome_not_decode_error.
Qed.

Lemma response_decode_strict_witness :
  exists es, construct Campaign [("templates", JList []); ("extra", JInt 1)] =
               inl (PydanticValidationError es) /\
             In (VError [LKey "campaignId"] "missing") es.
Proof.
  apply (proj1 response_decode_strict Campaign _
           (Field "campaign_id" (Some "campaignId") TStr None));
    [right; left; reflexivity|left; reflexivity|reflexivity].
Defined.

(** The JSON body of the request an operation sends, if it sends one. *)
Definition sent_json {A : Type} (m : io A) : option jvalue :=
  match m with Send req _ => req_json req | Ret _ => None end.

(** C7 (counterexample).  [create_batch_campaign] with [webhook_url=""]
    supplies a webhook URL, yet the body has no [webhook_url] key: the code
    tests [if webhook_url:]. *)
Lemma batch_empty_webhook_omitted :
  exists body,
    sent_json (create_batch_campaign sample_client "spring" ["https://shop.example/p/1"]
                 [("type", JStr "promotional"); ("goal", JStr "conversion");
                  ("urgency", JNull); ("discount", JNull)]
                 None None (Some EmptyString)) = Some (JObj body) /\
    lookup "webhook_url" body = None.
Proof. eexists; split; reflexivity. Qed.

(** C7 (amended).  The body sent by [create_batch_campaign] holds the campaign
    name, the product URLs, the serialized campaign context, [max_concurrent]
    (default 10) and [chunk_size] (default 100); it has a [webhook_url] entry,
    holding the URL verbatim, exactly when [webhook_url] is given and is not
    the empty string. *)
Theorem create_batch_campaign_body c name urls cc mc cs w :
  exists body,
    sent_json (create_batch_campaign c name urls cc mc cs w) = Some (JObj body) /\
    lookup "campaign_name" body = Some (JStr name) /\
    lookup "product_urls" body = Some (JList (map JStr urls)) /\
    lookup "campaign_context" body = Some (JObj (dict CampaignContext cc)) /\
    lookup "max_concurrent" body = Some (JInt (match mc with Some m => m | None => 10 end)) /\
    lookup "chunk_size" body = Some (JInt (match cs with Some s => s | None => 100 end)) /\
    lookup "webhook_url" body =
      match w with
      | Some s => if String.eqb s EmptyString then None else Some (JStr s)
      | None => None
      end.
Proof.
  eexists; split; [reflexivity|].
  unfold batch_payload; simpl.
  repeat split.
  destruct w as [s|]; [|reflexivity].
  destruct (String.eqb s EmptyString); reflexivity.
Qed.

Lemma mem_string_In s l : mem_string s l = true -> In s l.
Proof.
  unfold mem_string; intro H; apply existsb_exists in H as [x [Hx Heq]].
  apply String.eqb_eq in Heq; subst; exact Hx.
Qed.

Lemma validate_enum_outside vals loc v :
  match v with JStr s => ~ In s vals | _ => True end ->
  validate (TEnum vals) loc v = inl [VError loc "enum"].
Proof.
  intro H; destruct v; simpl; try reflexivity.
  destruct (mem_string s vals) eqn:E; [|reflexivity].
  exfalso; apply H, mem_string_In, E.
Qed.

Lemma validate_optional_not_null t loc v :
  v <> JNull -> validate (TOptional t) loc v = validate t loc v.
Proof. destruct v; simpl; congruence. Qed.

(** C8.  Constructing (or decoding) a [CampaignContext] whose [type], [goal]
    or [urgency] is given a value outside the declared value set fails with
    pydantic's [ValidationError], an [enum] error located at that key;
    [urgency] alone also admits [None]. *)
Theorem campaign_context_rejects_unknown_enum_values kw key vals v :
  In (key, vals) [("type", CampaignType); ("goal", CampaignGoal); ("urgency", Urgency)] ->
  lookup key kw = Some v ->
  match v with JStr s => ~ In s vals | JNull => key <> "urgency" | _ => True end ->
  exists es, construct CampaignContext kw = inl (PydanticValidationError es) /\
             In (VError [LKey key] "enum") es.
Proof.
  intros Hk Hl Hv.
  assert (Hfield : exists f, In f CampaignContext /\ wire_key f = key /\
                     field_result validate [] kw f = inl [VError [LKey key] "enum"]).
  { simpl in Hk; destruct Hk as [Hk|[Hk|[Hk|[]]]]; inversion Hk; subst key vals.
    - exists (Field "type" None (TEnum CampaignType) None).
      split; [left; reflexivity|split; [reflexivity|]].
      unfold field_result; simpl wire_key; rewrite Hl.
      apply validate_enum_outside. destruct v; auto.
    - exists (Field "goal" None (TEnum CampaignGoal) None).
      split; [right; left; reflexivity|split; [reflexivity|]].
      unfold field_result; simpl wire_key; rewrite Hl.
      apply validate_enum_outside. destruct v; auto.
    - exists (Field "urgency" None (TOptional (TEnum Urgency)) (Some JNull)).
      split; [right; right; left; reflexivity|split; [reflexivity|]].
      unfold field_result; simpl wire_key; rewrite Hl.
      rewrite validate_optional_not_null
        by (intro; subst v; apply Hv; reflexivity).
      apply validate_enum_outside. destruct v; auto. }
  destruct Hfield as [f [Hin [Hw Hr]]].
  destruct (validate_fields_error validate CampaignContext [] kw f _ Hin Hr) as [es [He Hi]].
  exists es; split.
  - unfold construct, validate_fields; rewrite He; reflexivity.
  - apply Hi; left; reflexivity.
Qed.

Lemma campaign_context_rejects_unknown_enum_values_witness :
  exists es,
    construct CampaignContext [("type", JStr "bogus"); ("goal", JStr "retention")] =
      inl (PydanticValidationError es) /\ In (VError [LKey "type"] "enum") es.
Proof.
  apply (campaign_context_rejects_unknown_enum_values _ "type" CampaignType (JStr "bogus")).
  - left; reflexivity.
  - reflexivity.
  - simpl; intuition discriminate.
Defined.

Lemma validate_TBool_bool loc v w :
  validate TBool loc v = inr w -> exists b, w = JBool b.
Proof.
  destruct v as [|b|z|m e|s|l|kvs]; intro H; try discriminate.
  - inversion H; eauto.
  - destruct z as [|[p|p|]|p]; inversion H; eauto.
  - unfold validate in H.
    destruct (float_as_int m e) as [[|[p|p|]|p]|]; inversion H; eauto.
  - unfold validate in H.
    destruct (mem_string (lower s) bool_true_strings); [inversion H; eauto|].
    destruct (mem_string (lower s) bool_false_strings); inversion H; eauto.
Qed.

(** C9 (counterexample).  [GenerationOptions(variations=0)] is accepted. *)
Lemma generation_options_accepts_zero_variations :
  construct GenerationOptions [("variations", JInt 0)] =
    inr [("variations", JInt 0); ("preserve_merge_tags", JBool true)].
Proof. reflexivity. Qed.

(** C9 (amended).  [GenerationOptions.variations] is an integer, default 3,
    with no positivity check: every integer, zero and negatives included, is
    accepted; [preserve_merge_tags] is a boolean, default true, read from the
    camelCase key [preserveMergeTags]. *)
Theorem generation_options_fields :
  construct GenerationOptions [] =
    inr [("variations", JInt 3); ("preserve_merge_tags", JBool true)] /\
  (forall z, construct GenerationOptions [("variations", JInt z)] =
    inr [("variations", JInt z); ("preserve_merge_tags", JBool true)]) /\
  (forall b, construct GenerationOptions [("preserveMergeTags", JBool b)] =
    inr [("variations", JInt 3); ("preserve_merge_tags", JBool b)]) /\
  (forall v inst, construct GenerationOptions [("preserveMergeTags", v)] = inr inst ->
     exists b, lookup "preserve_merge_tags" inst = Some (JBool b)).
Proof.
  split; [reflexivity|split; [intro z; reflexivity|split; [intro b; reflexivity|]]].
  intros v inst H.
  assert (Hc : construct GenerationOptions [("preserveMergeTags", v)] =
            match validate TBool [LKey "preserveMergeTags"] v with
            | inr w => inr [("variations", JInt 3); ("preserve_merge_tags", w)]
            | inl es => inl (PydanticValidationError es)
            end).
  { unfold construct, validate_fields, GenerationOptions.
    rewrite !validate_fields_with_cons. unfold field_result. simpl lookup. simpl wire_key.
    change ([] ++ [LKey "preserveMergeTags"]) with [LKey "preserveMergeTags"].
    destruct (validate TBool [LKey "preserveMergeTags"] v); reflexivity. }
  rewrite Hc in H.
  destruct (validate TBool [LKey "preserveMergeTags"] v) as [es|w] eqn:E; [discriminate|].
  apply validate_TBool_bool in E as [b ->].
  inversion H; subst; simpl. eauto.
Qed.

(** [n] slash characters. *)
Fixpoint slashes (n : nat) : string :=
  match n with O => EmptyString | S n' => String "/"%char (slashes n') end.

Fixpoint last_char (s : string) : option ascii :=
  match s with
  | EmptyString => None
  | String c EmptyString => Some c
  | String _ s' => last_char s'
  end.

Lemma rstrip_slash_slashes n : rstrip_slash (slashes n) = EmptyString.
Proof. induction n as [|n IH]; simpl; [reflexivity|rewrite IH; reflexivity]. Qed.

Lemma rstrip_slash_app_slashes p n :
  rstrip_slash (p ++ slashes n)%string = rstrip_slash p.
Proof.
  induction p as [|c p IH]; simpl; [apply rstrip_slash_slashes|].
  rewrite IH; reflexivity.
Qed.

Lemma rstrip_slash_decompose s : exists k, s = (rstrip_slash s ++ slashes k)%string.
Proof.
  induction s as [|c s [k IH]]; [exists O; reflexivity|].
  simpl. destruct (rstrip_slash s) as [|c' r] eqn:E.
  - destruct (Ascii.eqb c "/"%char) eqn:Ec.
    + apply Ascii.eqb_eq in Ec; subst c. exists (S k). simpl; f_equal; exact IH.
    + exists k. simpl; f_equal; exact IH.
  - exists k. simpl; f_equal; exact IH.
Qed.

Lemma last_char_cons c s : s <> EmptyString -> last_char (String c s) = last_char s.
Proof. destruct s; [contradiction|reflexivity]. Qed.

Lemma rstrip_slash_last s : last_char (rstrip_slash s) <> Some "/"%char.
Proof.
  induction s as [|c s IH]; simpl; [discriminate|].
  destruct (rstrip_slash s) as [|c' r] eqn:E.
  - destruct (Ascii.eqb c "/"%char) eqn:Ec; simpl; [discriminate|].
    intro H; inversion H; subst c; rewrite Ascii.eqb_refl in Ec; discriminate.
  - rewrite last_char_cons by discriminate. exact IH.
Qed.

(** C10.  The client stores its base URL with every trailing '/' removed, so
    two clients built from base URLs that differ only in trailing slashes are
    the same and send, for every operation, the same request, whose URL is the
    stored base followed by the operation's path. *)
Theorem base_url_trailing_slashes key tmo p n m :
  (forall url, last_char (base_url (AMPEmailClient key url tmo)) <> Some "/"%char /\
     exists k, url = (base_url (AMPEmailClient key url tmo) ++ slashes k)%string) /\
  AMPEmailClient key (p ++ slashes n)%string tmo = AMPEmailClient key (p ++ slashes m)%string tmo /\
  (forall op,
     call (AMPEmailClient key (p ++ slashes n)%string tmo) op =
     call (AMPEmailClient key (p ++ slashes m)%string tmo) op) /\
  (forall op req k, call (AMPEmailClient key (p ++ slashes n)%string tmo) op = Send req k ->
     exists path, req_url req = (rstrip_slash p ++ path)%string).
Proof.
  assert (Heq : AMPEmailClient key (p ++ slashes n)%string tmo =
                AMPEmailClient key (p ++ slashes m)%string tmo).
  { unfold AMPEmailClient; simpl; rewrite !rstrip_slash_app_slashes; reflexivity. }
  split; [|split; [exact Heq|split]].
  - intro url; split; [apply rstrip_slash_last|apply rstrip_slash_decompose].
  - intro op; rewrite Heq; reflexivity.
  - intros op req k.
    destruct op as [pu pr cc uc bc o|t|t d|nm u cc mc cs w|i]; simpl;
      unfold generate, get_template, personalize, create_batch_campaign,
        get_campaign_analytics, _request;
      [destruct (negb (truthy_list pu) && negb (truthy_list pr)); [discriminate|]| | | |];
      simpl; intro H; inversion H; subst; simpl;
      rewrite rstrip_slash_app_slashes; eexists; reflexivity.
Qed.

Lemma base_url_trailing_slashes_witness :
  exists req k,
    call (AMPEmailClient "key" ("https://api.example.com" ++ slashes 2)%string default_timeout)
      (OpGetTemplate "t1") = Send req k /\
    exists path, req_url req = (rstrip_slash "https://api.example.com" ++ path)%string.
Proof.
  do 2 eexists; split; [reflexivity|].
  eapply (proj2 (proj2 (proj2 (base_url_trailing_slashes "key" default_timeout
           "https://api.example.com" 2 0))) (OpGetTemplate "t1")).
  reflexivity.
Defined.

(** ** Further properties of the client and its models *)

(** The loops of [validate] over a [List[t]] and a [Dict[str, t]] input. *)
Definition list_loop (val : list loc_item -> jvalue -> list verror + jvalue)
  (loc : list loc_item) : nat -> list jvalue -> list verror + list jvalue :=
  fix go (i : nat) (l : list jvalue) : list verror + list jvalue :=
    match l with
    | [] => inr []
    | x :: l' =>
        match both (val (loc ++ [LIdx i]) x) (go (S i) l') with
        | inr (x', l'') => inr (x' :: l'')
        | inl es => inl es
        end
    end.

Definition dict_loop (val : list loc_item -> jvalue -> list verror + jvalue)
  (loc : list loc_item) : list (string * jvalue) -> list verror + list (string * jvalue) :=
  fix go (kvs : list (string * jvalue)) : list verror + list (string * jvalue) :=
    match kvs with
    | [] => inr []
    | (k, x) :: kvs' =>
        match both (val (loc ++ [LKey k]) x) (go kvs') with
        | inr (x', rest) => inr ((k, x') :: rest)
        | inl es => inl es
        end
    end.

Lemma validate_TList t loc l :
  validate (TList t) loc (JList l) =
  match list_loop (validate t) loc O l with inr l' => inr (JList l') | inl es => inl es end.
Proof. reflexivity. Qed.

Lemma validate_TDict t loc kvs :
  validate (TDict t) loc (JObj kvs) =
  match dict_loop (validate t) loc kvs with inr kvs' => inr (JObj kvs') | inl es => inl es end.
Proof. reflexivity. Qed.

Lemma list_loop_error val loc l i i0 x es :
  nth_error l i = Some x -> val (loc ++ [LIdx (i0 + i)]) x = inl es ->
  exists es', list_loop val loc i0 l = inl es' /\ incl es es'.
Proof.
  revert i i0; induction l as [|y l IH]; intros i i0 Hn Hv; [destruct i; discriminate|].
  simpl. destruct i as [|i]; simpl in Hn.
  - inversion Hn; subst. rewrite Nat.add_0_r in Hv; rewrite Hv.
    destruct (both_inl_left (A:=jvalue) es (list_loop val loc (S i0) l)) as [es' [-> Hi]]; eauto.
  - rewrite <- Nat.add_succ_comm in Hv.
    destruct (IH i (S i0) Hn Hv) as [es1 [Hr Hi]]. fold (list_loop val loc (S i0) l). rewrite Hr.
    destruct (both_inl_right (B:=list jvalue) (val (loc ++ [LIdx i0]) y) es1) as [es' [-> Hi']].
    exists es'; split; [reflexivity|]. eapply incl_tran; eauto.
Qed.

(** Types without nested models: validation maps a value to a fixed point. *)
Fixpoint flat (t : ftype) : bool :=
  match t with
  | TModel _ => false
  | TOptional t' | TList t' | TDict t' => flat t'
  | _ => true
  end.

Ltac solve_scalar H :=
  repeat (match type of H with context [match ?x with _ => _ end] => destruct x end);
  try discriminate; inversion H; subst; reflexivity.

Lemma validate_idempotent t :
  flat t = true -> forall loc v w, validate t loc v = inr w ->
  forall loc', validate t loc' w = inr w.
Proof.
  induction t as [| | | | |t IH|vals|t IH|t IH|fs]; intros Hf loc v w H loc';
    simpl in Hf; try discriminate.
  - destruct v; simpl in H; solve_scalar H.
  - destruct v; simpl in H; solve_scalar H.
  - destruct v; simpl in H; solve_scalar H.
  - destruct v; simpl in H; solve_scalar H.
  - inversion H; reflexivity.
  - destruct v; [inversion H; reflexivity|..];
      pose proof (IH Hf _ _ _ H loc') as Hw; destruct w; try exact Hw; reflexivity.
  - destruct v; simpl in H; try discriminate.
    destruct (mem_string s vals) eqn:E; [|discriminate].
    inversion H; subst; simpl; rewrite E; reflexivity.
  - destruct v as [| | | | |l|]; try (simpl in H; discriminate).
    rewrite validate_TList in H.
    destruct (list_loop (validate t) loc 0 l) as [es|l'] eqn:E; [discriminate|].
    inversion H; subst. rewrite validate_TList.
    assert (Hl : forall l l' i i', list_loop (validate t) loc i l = inr l' ->
                   list_loop (validate t) loc' i' l' = inr l').
    { induction l0 as [|x l0 IHl]; intros l1 i i' Hr.
      - inversion Hr; reflexivity.
      - simpl in Hr.
        destruct (both _ _) as [es|[x' l'']] eqn:Eb; [discriminate|].
        inversion Hr; subst. apply both_inr_inv in Eb as [E1 E2].
        fold (list_loop (validate t) loc (S i) l0) in E2.
        simpl. rewrite (IH Hf _ _ _ E1 (loc' ++ [LIdx i'])).
        fold (list_loop (validate t) loc' (S i') l''). rewrite (IHl _ _ (S i') E2).
        reflexivity. }
    rewrite (Hl l l' O O E); reflexivity.
  - destruct v as [| | | | | |kvs]; try (simpl in H; discriminate).
    rewrite validate_TDict in H.
    destruct (dict_loop (validate t) loc kvs) as [es|kvs'] eqn:E; [discriminate|].
    inversion H; subst. rewrite validate_TDict.
    assert (Hd : forall kvs kvs', dict_loop (validate t) loc kvs = inr kvs' ->
                   dict_loop (validate t) loc' kvs' = inr kvs').
    { induction kvs0 as [|[k x] kvs0 IHk]; intros kvs1 Hr.
      - inversion Hr; reflexivity.
      - simpl in Hr.
        destruct (both _ _) as [es|[x' rest]] eqn:Eb; [discriminate|].
        inversion Hr; subst. apply both_inr_inv in Eb as [E1 E2].
        fold (dict_loop (validate t) loc kvs0) in E2.
        simpl. rewrite (IH Hf _ _ _ E1 (loc' ++ [LKey k])).
        fold (dict_loop (validate t) loc' rest). rewrite (IHk _ E2).
        reflexivity. }
    rewrite (Hd kvs kvs' E); reflexivity.
Qed.

Definition default_of (f : field) : jvalue :=
  match field_default f with Some d => d | None => JNull end.

Lemma lookup_not_in k kvs : ~ In k (map fst kvs) -> lookup k kvs = None.
Proof.
  induction kvs as [|[k' v] kvs IH]; simpl; intro H; [reflexivity|].
  destruct (String.eqb k k') eqn:E.
  - apply String.eqb_eq in E; subst; exfalso; apply H; left; reflexivity.
  - apply IH; intro; apply H; right; assumption.
Qed.

Lemma validate_fields_all val fs loc kvs (g : field -> jvalue) :
  (forall f, In f fs -> field_result val loc kvs f = inr (g f)) ->
  validate_fields_with val fs loc kvs = inr (map (fun f => (field_name f, g f)) fs).
Proof.
  induction fs as [|f fs IH]; intro H; [reflexivity|].
  rewrite validate_fields_with_cons, H by (left; reflexivity).
  rewrite IH by (intros h Hh; apply H; right; exact Hh). reflexivity.
Qed.

Lemma instance_shape val fs loc kvs inst :
  validate_fields_with val fs loc kvs = inr inst -> NoDup (map field_name fs) ->
  inst = map (fun f => (field_name f, value_of inst f)) fs.
Proof.
  revert inst; induction fs as [|f fs IH]; intros inst H Hnd.
  - simpl in H; inversion H; reflexivity.
  - rewrite validate_fields_with_cons in H.
    destruct (both _ _) as [es|[v rest]] eqn:E; [discriminate|].
    inversion H; subst; clear H. apply both_inr_inv in E as [_ E2].
    simpl in Hnd; inversion Hnd as [|? ? Hno Hnd']; subst.
    simpl. unfold value_of at 1; simpl; rewrite String.eqb_refl. f_equal.
    rewrite (IH rest E2 Hnd') at 1. apply map_ext_in; intros g Hg.
    unfold value_of; simpl.
    destruct (String.eqb (field_name g) (field_name f)) eqn:Eq; [|reflexivity].
    apply String.eqb_eq in Eq; exfalso; apply Hno; rewrite <- Eq; apply in_map; exact Hg.
Qed.

(** Every field type is free of nested models; an aliased field has a default
    and its alias is no attribute name of the model. *)
Definition roundtrip_ok_b (s : list field) : bool :=
  forallb (fun f =>
    flat (field_type f) &&
    match field_alias f with
    | Some a => negb (existsb (fun g => String.eqb a (field_name g)) s) &&
                match field_default f with Some _ => true | None => false end
    | None => true
    end) s.

Lemma roundtrip_ok_spec s f :
  roundtrip_ok_b s = true -> In f s ->
  flat (field_type f) = true /\
  (forall a, field_alias f = Some a ->
     ~ In a (map field_name s) /\ exists d, field_default f = Some d).
Proof.
  unfold roundtrip_ok_b; rewrite forallb_forall; intros H Hf.
  specialize (H f Hf); apply andb_true_iff in H as [Hflat Ha].
  split; [exact Hflat|]. intros a Heq; rewrite Heq in Ha.
  apply andb_true_iff in Ha as [Hn Hd]. split.
  - intro Hin. apply in_map_iff in Hin as [g [Hg Hgin]].
    apply negb_true_iff in Hn.
    assert (Ht : existsb (fun g => String.eqb a (field_name g)) s = true).
    { apply existsb_exists; exists g; split; [exact Hgin|]. subst; apply String.eqb_refl. }
    rewrite Ht in Hn; discriminate.
  - destruct (field_default f); [eauto|discriminate].
Qed.

Lemma request_models_roundtrip_ok s : In s request_models -> roundtrip_ok_b s = true.
Proof. simpl; intros [<-|[<-|[<-|[<-|[<-|[]]]]]]; reflexivity. Qed.

(** Rebuilding a request-side model from its [.dict()] (the mapping the
    client sends) keeps every field that has no alias and resets every aliased
    field to its default: [.dict()] writes the attribute name, which
    construction ignores for an aliased field. *)
Theorem dict_then_construct s kw inst :
  In s request_models -> construct s kw = inr inst ->
  construct s (dict s inst) =
    inr (map (fun f => (field_name f,
                        match field_alias f with
                        | Some _ => default_of f
                        | None => value_of inst f
                        end)) s).
Proof.
  intros Hs Hc.
  destruct (request_models_wf s Hs) as [Hnames [Hkeys Hdef]].
  pose proof (request_models_roundtrip_ok s Hs) as Hok.
  unfold construct in Hc |- *.
  destruct (validate_fields s [] kw) as [es|inst'] eqn:Hv; [discriminate|].
  inversion Hc; subst inst'; clear Hc.
  unfold validate_fields.
  rewrite (validate_fields_all validate s [] (dict s inst)
    (fun f => match field_alias f with Some _ => default_of f | None => value_of inst f end));
    [reflexivity|].
  intros f Hf.
  destruct (roundtrip_ok_spec s f Hok Hf) as [Hflat Hal].
  destruct (validate_fields_lookup validate s [] kw inst f Hv Hnames Hf) as [v [Hr Hli]].
  destruct (field_alias f) as [a|] eqn:Ea.
  - destruct (Hal a eq_refl) as [Hnot [d Hd]].
    assert (Hw : wire_key f = a) by (destruct f as [n a' ty dd]; simpl in *; subst; reflexivity).
    unfold field_result. rewrite Hw, lookup_not_in, Hd.
    + unfold default_of; rewrite Hd; reflexivity.
    + unfold dict, model_dump; rewrite map_map; exact Hnot.
  - assert (Hw : wire_key f = field_name f) by (destruct f as [n a' ty dd]; simpl in *; subst; reflexivity).
    unfold value_of; rewrite Hli.
    unfold field_result. rewrite Hw, (dict_lookup s inst f Hnames Hf), Hli.
    unfold field_result in Hr. rewrite Hw in Hr.
    destruct f as [n a' ty dd]; simpl in Hflat, Hr |- *.
    destruct (lookup n kw) as [x|] eqn:Ex.
    + exact (validate_idempotent ty Hflat _ _ _ Hr _).
    + destruct dd as [d|]; [|discriminate]. inversion Hr; subst.
      apply (Hdef _ v Hf eq_refl).
Qed.

Lemma dict_then_construct_witness :
  In UserContext request_models /\
  construct UserContext [("firstName", JStr "Ann"); ("email", JStr "a@b.c")] =
    inr [("first_name", JStr "Ann"); ("last_name", JNull); ("email", JStr "a@b.c");
         ("custom_fields", JNull)] /\
  construct UserContext (dict UserContext
    [("first_name", JStr "Ann"); ("last_name", JNull); ("email", JStr "a@b.c");
     ("custom_fields", JNull)]) =
    inr [("first_name", JNull); ("last_name", JNull); ("email", JStr "a@b.c");
         ("custom_fields", JNull)].
Proof.
  split; [right; right; left; reflexivity|split; [reflexivity|]].
  exact (dict_then_construct UserContext [("firstName", JStr "Ann"); ("email", JStr "a@b.c")] _
           (or_intror (or_intror (or_introl eq_refl))) eq_refl).
Defined.

(** [Product] and [CampaignContext] declare no alias, so the mapping that
    [generate] and [create_batch_campaign] send for them rebuilds the very
    same instance. *)
Theorem product_campaign_context_dict_roundtrip s kw inst :
  s = Product \/ s = CampaignContext -> construct s kw = inr inst ->
  construct s (dict s inst) = inr inst.
Proof.
  intros Hs Hc.
  assert (Hin : In s request_models) by (destruct Hs as [->| ->]; simpl; auto).
  rewrite (dict_then_construct s kw inst Hin Hc).
  destruct (request_models_wf s Hin) as [Hnames _].
  unfold construct in Hc.
  destruct (validate_fields s [] kw) as [es|inst'] eqn:Hv; [discriminate|].
  inversion Hc; subst inst'.
  pose proof (instance_shape validate s [] kw inst Hv Hnames) as Hsh.
  f_equal. etransitivity; [|symmetry; exact Hsh].
  apply map_ext_in; intros f Hf.
  assert (Ha : field_alias f = None).
  { destruct Hs as [->| ->]; simpl in Hf;
      repeat (destruct Hf as [<-|Hf]; [reflexivity|]); destruct Hf. }
  rewrite Ha; reflexivity.
Qed.

Lemma product_campaign_context_dict_roundtrip_witness :
  construct Product (dict Product
    [("id", JStr "p1"); ("name", JNull); ("price", JFloat 1999 (-2)); ("currency", JStr "EUR");
     ("image", JNull); ("url", JNull); ("description", JNull); ("brand", JNull)]) =
  inr [("id", JStr "p1"); ("name", JNull); ("price", JFloat 1999 (-2)); ("currency", JStr "EUR");
       ("image", JNull); ("url", JNull); ("description", JNull); ("brand", JNull)].
Proof.
  apply (product_campaign_context_dict_roundtrip Product
           [("id", JStr "p1"); ("price", JFloat 1999 (-2)); ("currency", JStr "EUR")]);
    [left; reflexivity|reflexivity].
Defined.

Definition is_generate (op : operation) : bool :=
  match op with OpGenerate _ _ _ _ _ _ => true | _ => false end.

(** The operations other than [generate] return what [_request] returns. *)
Lemma call_not_generate c op :
  is_generate op = false ->
  exists method path json, call c op = _request c method path json.
Proof.
  destruct op; simpl; intro H; try discriminate; do 3 eexists; reflexivity.
Qed.

(** Every operation that sends its request turns a transport failure
    ([RequestException]) into an [AMPEmailError] whose message is
    "Request failed: " followed by the failure's message. *)
Theorem transport_failure_wrapped c op req k m :
  call c op = Send req k ->
  k (RequestException m) = Ret (inl (AMPEmailError (JStr ("Request failed: " ++ m)%string))).
Proof. intro Hc; apply (call_error_passes c op req k); [exact Hc|reflexivity]. Qed.

Lemma transport_failure_wrapped_witness :
  exists req k,
    call sample_client (OpGetCampaignAnalytics "c1") = Send req k /\
    k (RequestException "Read timed out.") =
      Ret (inl (AMPEmailError (JStr "Request failed: Read timed out."))).
Proof.
  do 2 eexists; split; [reflexivity|].
  eapply (transport_failure_wrapped sample_client (OpGetCampaignAnalytics "c1")).
  reflexivity.
Defined.

(** For [get_template], [personalize], [create_batch_campaign] and
    [get_campaign_analytics], a response with status below 400 (redirect codes
    included) returns the decoded JSON body unchanged; a body that does not
    decode raises an [AMPEmailError] "Request failed: ...". *)
Theorem success_returns_json c op req k st cont :
  is_generate op = false -> call c op = Send req k -> st < 400 ->
  (forall v, k (Response (MkResponse st cont (inr v))) = Ret (inr v)) /\
  (forall m, k (Response (MkResponse st cont (inl m))) =
             Ret (inl (AMPEmailError (JStr ("Request failed: " ++ m)%string)))).
Proof.
  intros Hg Hc Hst.
  destruct (call_not_generate c op Hg) as [method [path [json Hr]]].
  rewrite Hr in Hc; unfold _request in Hc; inversion Hc; subst; clear Hc.
  assert (Hcls : forall js, handle_outcome (Response (MkResponse st cont js)) =
            match js with
            | inl m => inl (AMPEmailError (JStr ("Request failed: " ++ m)%string))
            | inr v => inr v
            end).
  { intro js; unfold handle_outcome; simpl.
    destruct (st =? 401) eqn:E1; [apply Z.eqb_eq in E1; lia|].
    destruct (st =? 429) eqn:E2; [apply Z.eqb_eq in E2; lia|].
    destruct (400 <=? st) eqn:E3; [apply Z.leb_le in E3; lia|reflexivity]. }
  split; [intro v|intro m]; rewrite Hcls; reflexivity.
Qed.

Lemma success_returns_json_witness :
  exists req k,
    call sample_client (OpPersonalize "t1" [("first_name", JStr "Ann")]) = Send req k /\
    k (Response (MkResponse 200 "{}" (inr (JObj [])))) = Ret (inr (JObj [])).
Proof.
  do 2 eexists; split; [reflexivity|].
  refine (proj1 (success_returns_json sample_client
            (OpPersonalize "t1" [("first_name", JStr "Ann")]) _ _ 200 "{}" eq_refl eq_refl _) _).
  lia.
Defined.

(** An error status (>= 400, not 401 or 429) whose body decodes to JSON that
    is not an object makes [error_data.get] fail: the operation raises
    [AttributeError], which is not an [AMPEmailError]. *)
Theorem error_body_not_object c op req k st cont v :
  call c op = Send req k -> 400 <= st -> st <> 401 -> st <> 429 ->
  cont <> EmptyString -> (forall kvs, v <> JObj kvs) ->
  k (Response (MkResponse st cont (inr v))) =
    Ret (inl (AttributeError ("'" ++ py_type_name v ++ "' object has no attribute 'get'")%string)) /\
  is_amp_error (AttributeError ("'" ++ py_type_name v ++ "' object has no attribute 'get'")%string) = false.
Proof.
  intros Hc H400 H401 H429 Hne Hv. split; [|reflexivity].
  apply (call_error_passes c op req k); [exact Hc|].
  unfold handle_outcome; simpl.
  destruct (st =? 401) eqn:E1; [apply Z.eqb_eq in E1; contradiction|].
  destruct (st =? 429) eqn:E2; [apply Z.eqb_eq in E2; contradiction|].
  destruct (400 <=? st) eqn:E3; [|apply Z.leb_gt in E3; lia].
  destruct cont; [contradiction|].
  destruct v; try reflexivity. exfalso; eapply Hv; reflexivity.
Qed.

Lemma error_body_not_object_witness :
  exists req k,
    call sample_client (OpGetTemplate "t1") = Send req k /\
    k (Response (MkResponse 500 "[]" (inr (JList [])))) =
      Ret (inl (AttributeError "'list' object has no attribute 'get'")).
Proof.
  do 2 eexists; split; [reflexivity|].
  refine (proj1 (error_body_not_object sample_client (OpGetTemplate "t1") _ _ 500 "[]"
            (JList []) eq_refl _ _ _ _ _)); [lia|discriminate|discriminate|discriminate|].
  intros kvs; discriminate.
Defined.

Definition is_get_op (op : operation) : bool :=
  match op with OpGetTemplate _ | OpGetCampaignAnalytics _ => true | _ => false end.

(** Every request a client sends carries the session headers set at
    construction (bearer token, JSON content type, user agent) and the
    client's timeout; [get_template] and [get_campaign_analytics] send a GET
    without body, the other operations a POST with a JSON object body. *)
Theorem request_carries_session key url tmo op req k :
  call (AMPEmailClient key url tmo) op = Send req k ->
  req_headers req = [("Authorization", "Bearer " ++ key)%string;
                     ("Content-Type", "application/json");
                     ("User-Agent", "amp-email-python-sdk/1.0.0")] /\
  req_timeout req = tmo /\
  (if is_get_op op then req_method req = "GET" /\ req_json req = None
   else req_method req = "POST" /\ exists body, req_json req = Some (JObj body)).
Proof.
  destruct op as [pu pr cc uc bc o|t|t d|nm u cc mc cs w|i]; simpl;
    unfold generate, get_template, personalize, create_batch_campaign,
      get_campaign_analytics, _request;
    [destruct (negb (truthy_list pu) && negb (truthy_list pr)); [discriminate|]| | | |];
    simpl; intro H; inversion H; subst; simpl; repeat split; eauto.
Qed.

Lemma request_carries_session_witness :
  exists req k,
    call (AMPEmailClient "sk_live_1" default_base_url 5) (OpGetTemplate "t1") = Send req k /\
    req_timeout req = 5.
Proof.
  do 2 eexists; split; [reflexivity|].
  eapply (proj1 (proj2 (request_carries_session "sk_live_1" default_base_url 5
            (OpGetTemplate "t1") _ _ eq_refl))).
Defined.

(** No retries: whatever the transport answers, an operation sends exactly
    one request, except [generate] without products, which sends none. *)
Theorem one_request_per_call transport c op :
  length (requests_issued transport (call c op)) =
  match op with
  | OpGenerate pu pr _ _ _ _ =>
      if negb (truthy_list pu) && negb (truthy_list pr) then O else 1%nat
  | _ => 1%nat
  end.
Proof.
  destruct op as [pu pr cc uc bc o|t|t d|nm u cc mc cs w|i]; simpl;
    unfold generate, get_template, personalize, create_batch_campaign,
      get_campaign_analytics, _request; try reflexivity.
  destruct (negb (truthy_list pu) && negb (truthy_list pr)); reflexivity.
Qed.

(** The body [generate] sends: [campaign_context] always ([{}] when not
    given); [product_urls] and [products] only when non-empty, each product
    serialized with [.dict()]; [user_context], [brand_context] and [options]
    exactly when given. *)
Theorem generate_payload_contents c pu pr cc uc bc o :
  truthy_list pu = true \/ truthy_list pr = true ->
  exists body,
    sent_json (generate c pu pr cc uc bc o) = Some (JObj body) /\
    lookup "campaign_context" body =
      Some (match cc with Some i => JObj (dict CampaignContext i) | None => JObj [] end) /\
    lookup "product_urls" body =
      (if truthy_list pu
       then Some (JList (map JStr (match pu with Some l => l | None => [] end))) else None) /\
    lookup "products" body =
      (if truthy_list pr
       then Some (JList (map (fun p => JObj (dict Product p))
                             (match pr with Some l => l | None => [] end))) else None) /\
    lookup "user_context" body = option_map (fun u => JObj (dict UserContext u)) uc /\
    lookup "brand_context" body = option_map (fun b => JObj (dict BrandContext b)) bc /\
    lookup "options" body = option_map (fun x => JObj (dict GenerationOptions x)) o.
Proof.
  intro Ht. unfold generate.
  destruct (negb (truthy_list pu) && negb (truthy_list pr)) eqn:E.
  - exfalso. apply andb_true_iff in E as [E1 E2].
    apply negb_true_iff in E1, E2. destruct Ht as [H|H]; congruence.
  - eexists; split; [reflexivity|].
    unfold generate_payload.
    destruct pu as [[|x xs]|], pr as [[|y ys]|], uc, bc, o; simpl;
      repeat split; reflexivity.
Qed.

Lemma generate_payload_contents_witness :
  exists body,
    sent_json (generate sample_client (Some ["https://shop.example/p/1"]) None
                 None None None None) = Some (JObj body) /\
    lookup "campaign_context" body = Some (JObj []).
Proof.
  destruct (generate_payload_contents sample_client (Some ["https://shop.example/p/1"]) None
              None None None None (or_introl eq_refl)) as [body [H1 [H2 _]]].
  exists body; split; assumption.
Defined.

(** A successful (status below 400) response to [generate] is decoded as
    [Campaign] applied to the body keys: a JSON object gives the [Campaign] instance or
    pydantic's [ValidationError]; any other JSON value raises [TypeError]. *)
Theorem generate_decodes_campaign c pu pr cc uc bc o req k st cont :
  generate c pu pr cc uc bc o = Send req k -> st < 400 ->
  (forall kvs, k (Response (MkResponse st cont (inr (JObj kvs)))) =
     Ret (match construct Campaign kvs with inr inst => inr (JObj inst) | inl e => inl e end)) /\
  (forall v, (forall kvs, v <> JObj kvs) ->
     exists msg, k (Response (MkResponse st cont (inr v))) = Ret (inl (TypeError msg))).
Proof.
  intros Hg Hst. unfold generate, _request in Hg.
  destruct (negb (truthy_list pu) && negb (truthy_list pr)); [discriminate|].
  simpl in Hg; inversion Hg; subst; clear Hg.
  assert (Hcls : forall v, handle_outcome (Response (MkResponse st cont (inr v))) = inr v).
  { intro v; unfold handle_outcome; simpl.
    destruct (st =? 401) eqn:E1; [apply Z.eqb_eq in E1; lia|].
    destruct (st =? 429) eqn:E2; [apply Z.eqb_eq in E2; lia|].
    destruct (400 <=? st) eqn:E3; [apply Z.leb_le in E3; lia|reflexivity]. }
  split.
  - intro kvs; cbn [bind]; rewrite Hcls; reflexivity.
  - intros v Hv; cbn [bind]; rewrite Hcls.
    destruct v; try (eexists; reflexivity). exfalso; eapply Hv; reflexivity.
Qed.

Lemma generate_decodes_campaign_witness :
  exists req k,
    generate sample_client (Some ["u"]) None None None None None = Send req k /\
    exists msg, k (Response (MkResponse 200 "[]" (inr (JList [])))) = Ret (inl (TypeError msg)).
Proof.
  do 2 eexists; split; [reflexivity|].
  refine (proj2 (generate_decodes_campaign sample_client (Some ["u"]) None None None None None
            _ _ 200 "[]" eq_refl _) (JList []) _); [lia|].
  intros kvs; discriminate.
Defined.

Lemma validate_TModel fs loc kvs :
  validate (TModel fs) loc (JObj kvs) =
  match validate_fields_with validate fs loc kvs with
  | inr inst => inr (JObj inst)
  | inl es => inl es
  end.
Proof. reflexivity. Qed.

(** Decoding a [Campaign] whose [templates] list holds, at index [i], an
    object lacking a [Template] field fails with pydantic's
    [ValidationError], a [missing] error located at
    [templates -> i -> <wire key of the field>]. *)
Theorem campaign_template_error_location kvs l i t g :
  lookup "templates" kvs = Some (JList l) ->
  nth_error l i = Some (JObj t) ->
  In g Template -> lookup (wire_key g) t = None ->
  exists es, construct Campaign kvs = inl (PydanticValidationError es) /\
             In (VError [LKey "templates"; LIdx i; LKey (wire_key g)] "missing") es.
Proof.
  intros Hl Hn Hg Ht.
  assert (Hd : field_default g = None)
    by (apply (response_models_required Template); [left; reflexivity|exact Hg]).
  assert (Hg1 : field_result validate ([LKey "templates"] ++ [LIdx (O + i)]) t g =
                inl [VError [LKey "templates"; LIdx i; LKey (wire_key g)] "missing"]).
  { unfold field_result; rewrite Ht, Hd; reflexivity. }
  destruct (validate_fields_error validate Template _ t g _ Hg Hg1) as [es1 [Hv1 Hi1]].
  assert (Hx : validate (TModel Template) ([LKey "templates"] ++ [LIdx (O + i)]) (JObj t) =
               inl es1) by (rewrite validate_TModel, Hv1; reflexivity).
  destruct (list_loop_error (validate (TModel Template)) [LKey "templates"] l i O _ es1 Hn Hx)
    as [es2 [Hl2 Hi2]].
  set (ft := Field "templates" None (TList (TModel Template)) None).
  assert (Hf : field_result validate [] kvs ft = inl es2).
  { unfold field_result; simpl wire_key; rewrite Hl; unfold ft.
    change ([] ++ [LKey "templates"]) with [LKey "templates"].
    rewrite validate_TList, Hl2; reflexivity. }
  destruct (validate_fields_error validate Campaign [] kvs ft es2
              (or_intror (or_introl eq_refl)) Hf) as [es [He Hi]].
  exists es; split.
  - unfold construct, validate_fields; rewrite He; reflexivity.
  - apply Hi, Hi2, Hi1; left; reflexivity.
Qed.

Lemma campaign_template_error_location_witness :
  exists es,
    construct Campaign
      [("campaignId", JStr "c1");
       ("templates", JList [JObj [("id", JStr "t1")]])] = inl (PydanticValidationError es) /\
    In (VError [LKey "templates"; LIdx O; LKey "ampUrl"] "missing") es.
Proof.
  apply (campaign_template_error_location _ [JObj [("id", JStr "t1")]] O
           [("id", JStr "t1")] (Field "amp_url" (Some "ampUrl") TStr None)).
  - reflexivity.
  - reflexivity.
  - simpl; tauto.
  - reflexivity.
Defined.

(** Keyword arguments (or response keys) that are no field's wire key are
    ignored by every model ([extra='ignore']): in particular the attribute
    names of aliased fields, such as [first_name] for [UserContext]. *)
Theorem unknown_keys_ignored s k v kw :
  (forall f, In f s -> wire_key f <> k) ->
  construct s ((k, v) :: kw) = construct s kw.
Proof.
  intro Hk. unfold construct, validate_fields.
  assert (E : validate_fields_with validate s [] ((k, v) :: kw) =
              validate_fields_with validate s [] kw).
  { induction s as [|g s IH]; [reflexivity|].
    rewrite !validate_fields_with_cons.
    rewrite field_result_other_key by (apply Hk; left; reflexivity).
    rewrite IH by (intros f Hf; apply Hk; right; exact Hf).
    reflexivity. }
  rewrite E; reflexivity.
Qed.

Lemma unknown_keys_ignored_witness :
  construct UserContext [("first_name", JStr "Ann")] = construct UserContext [].
Proof.
  apply unknown_keys_ignored.
  intros f Hf; simpl in Hf.
  repeat (destruct Hf as [<-|Hf]; [discriminate|]); destruct Hf.
Defined.

(** [CampaignContext] accepts every declared campaign type with every
    declared goal, and every declared urgency; [urgency] and [discount]
    default to [None]. *)
Theorem campaign_context_accepts_declared_values ty goal :
  In ty CampaignType -> In goal CampaignGoal ->
  construct CampaignContext [("type", JStr ty); ("goal", JStr goal)] =
    inr [("type", JStr ty); ("goal", JStr goal); ("urgency", JNull); ("discount", JNull)] /\
  (forall u, In u Urgency ->
     construct CampaignContext [("type", JStr ty); ("goal", JStr goal); ("urgency", JStr u)] =
       inr [("type", JStr ty); ("goal", JStr goal); ("urgency", JStr u); ("discount", JNull)]).
Proof.
  intros Ht Hg.
  simpl in Ht, Hg.
  repeat (destruct Ht as [<-|Ht]; [|]); try destruct Ht;
  repeat (destruct Hg as [<-|Hg]; [|]); try destruct Hg;
  (split; [reflexivity|]);
  intros u Hu; simpl in Hu;
  repeat (destruct Hu as [<-|Hu]; [|]); try destruct Hu; reflexivity.
Qed.

Lemma campaign_context_accepts_declared_values_witness :
  construct CampaignContext
    [("type", JStr "price_drop"); ("goal", JStr "retention"); ("urgency", JStr "high")] =
  inr [("type", JStr "price_drop"); ("goal", JStr "retention");
       ("urgency", JStr "high"); ("discount", JNull)].
Proof.
  refine (proj2 (campaign_context_accepts_declared_values "price_drop" "retention" _ _)
            "high" _); simpl; tauto.
Defined.

(** [CampaignContext.type] and [CampaignContext.goal] are required: without
    the key, construction fails with a [missing] error at that key. *)
Theorem campaign_context_requires_type_goal kw key :
  key = "type" \/ key = "goal" -> lookup key kw = None ->
  exists es, construct CampaignContext kw = inl (PydanticValidationError es) /\
             In (VError [LKey key] "missing") es.
Proof.
  intros [->| ->] Hl.
  - apply (construct_missing_field CampaignContext kw
             (Field "type" None (TEnum CampaignType) None)); auto; left; reflexivity.
  - apply (construct_missing_field CampaignContext kw
             (Field "goal" None (TEnum CampaignGoal) None)); auto; right; left; reflexivity.
Qed.

Lemma campaign_context_requires_type_goal_witness :
  exists es, construct CampaignContext [("type", JStr "promotional")] =
               inl (PydanticValidationError es) /\
             In (VError [LKey "goal"] "missing") es.
Proof.
  apply campaign_context_requires_type_goal; [right; reflexivity|reflexivity].
Defined.

Lemma rstrip_slash_cons c s :
  rstrip_slash (String c s) =
  match rstrip_slash s with
  | EmptyString => if Ascii.eqb c "/"%char then EmptyString else String c EmptyString
  | r => String c r
  end.
Proof. simpl. destruct (rstrip_slash s); reflexivity. Qed.

Lemma rstrip_slash_no_trailing s : last_char s <> Some "/"%char -> rstrip_slash s = s.
Proof.
  induction s as [|c s IH]; intro H; [reflexivity|].
  rewrite rstrip_slash_cons. destruct s as [|c' s'].
  - simpl. destruct (Ascii.eqb c "/") eqn:E; [|reflexivity].
    apply Ascii.eqb_eq in E; subst; exfalso; apply H; reflexivity.
  - rewrite IH by exact H. reflexivity.
Qed.

(** A base URL that does not end in a slash is kept as given. *)
Theorem base_url_kept key url tmo :
  last_char url <> Some "/"%char -> base_url (AMPEmailClient key url tmo) = url.
Proof. intro H; simpl; apply rstrip_slash_no_trailing, H. Qed.

Lemma base_url_kept_witness :
  base_url (AMPEmailClient "sk_live_1" "https://eu.amp-platform.com/v2" 30) =
  "https://eu.amp-platform.com/v2".
Proof. apply base_url_kept; discriminate. Defined.

(** Every request goes to the stored base URL, which ends in no slash,
    followed by an endpoint path under [/api/v1/]: no doubled slash at the
    junction. *)
Theorem request_url_join key url tmo op req k :
  call (AMPEmailClient key url tmo) op = Send req k ->
  (exists p, req_url req = (rstrip_slash url ++ "/api/v1/" ++ p)%string) /\
  last_char (rstrip_slash url) <> Some "/"%char.
Proof.
  intro H; split; [|apply rstrip_slash_last].
  destruct op as [pu pr cc uc bc o|t|t d|nm u cc mc cs w|i]; simpl in H;
    unfold generate, get_template, personalize, create_batch_campaign,
      get_campaign_analytics, _request in H;
    [destruct (negb (truthy_list pu) && negb (truthy_list pr)); [discriminate|]| | | |];
    simpl in H; inversion H; subst; simpl.
  - exists "generate"; reflexivity.
  - exists ("templates/" ++ t)%string; reflexivity.
  - exists "personalize"; reflexivity.
  - exists "batch/campaign"; reflexivity.
  - exists ("analytics/campaign/" ++ i)%string; reflexivity.
Qed.

Lemma request_url_join_witness :
  exists req k,
    call (AMPEmailClient "sk" "https://api.example.com//" 30) (OpGetCampaignAnalytics "c1")
      = Send req k /\
    exists p, req_url req = ("https://api.example.com/api/v1/" ++ p)%string.
Proof.
  do 2 eexists; split; [reflexivity|].
  exact (proj1 (request_url_join "sk" "https://api.example.com//" 30
                  (OpGetCampaignAnalytics "c1") _ _ eq_refl)).
Defined.
